(** * Power distribution on a linear track (Example.py)

    A shallow embedding of the railway power-distribution simulation of
    [Example.py]: positions, trains, substations and the network
    controller, followed by the properties of the allocation pass.

    Modelling conventions.
    - Python [float] values are modelled as exact rationals ([Qc], the
      canonical rationals, whose equality is Leibniz equality);
      infinities and NaN are outside the model.  The interpreter rounds
      every operation to binary64, so the properties stated below are
      those that rounding to nearest preserves: comparisons, bounds
      between a result and its operands, and structure.  Where the exact
      model and binary64 part ways (a sum of rounded amounts, the order
      of a product and a quotient), the numeric steps of the program are
      run in binary64 as well ([Numeric.binary64]) and the difference is
      shown on a concrete run.
    - A Python [dict] is an insertion-ordered association list: assigning
      to an existing key keeps the key's slot, a new key goes to the end.
    - Substation objects are mutable and are reached through references
      (the tuples returned by [get_nearest_substations] hold the objects
      themselves).  A reference is modelled as the slot number of the
      object in [substations.values()]; every registry entry is a
      distinct object.
    - [print] is modelled by the list of lines written. *)

From Stdlib Require Import QArith Qcanon Qcabs Sorted Permutation Lqa SpecFloat.
From stdpp Require Import base decidable numbers list strings pretty.

(** ** Python built-ins used by the program *)

(** [max(a, b)]: the first argument unless the second is strictly larger. *)
Definition py_max (a b : Qc) : Qc := if bool_decide (a < b)%Qc then b else a.

(** [min(a, b)]: the first argument unless the second is strictly smaller. *)
Definition py_min (a b : Qc) : Qc := if bool_decide (b < a)%Qc then b else a.

(** [sorted(l, key=...)] is a stable sort comparing keys with [<]; the
    stable sort of a list is unique, here computed by insertion from the
    right. *)
Section PySorted.
Context {A : Type} (key : A → Qc).

Fixpoint py_insert (a : A) (l : list A) : list A :=
  match l with
  | [] => [a]
  | b :: l' =>
      if bool_decide (key b < key a)%Qc then b :: py_insert a l' else a :: b :: l'
  end.

Definition py_sorted (l : list A) : list A := foldr py_insert [] l.

(** The order in which the result is sorted. *)
Definition key_le (a b : A) : Prop := (key a ≤ key b)%Qc.
End PySorted.

(** An insertion-ordered [dict] with string keys. *)
Module Dict.
Abbreviation t V := (list (string * V)).

Definition empty {V : Type} : t V := [].

(** [d[k] = v] *)
Fixpoint set {V : Type} (k : string) (v : V) (d : t V) : t V :=
  match d with
  | [] => [(k, v)]
  | (k', v') :: d' =>
      if decide (k' = k) then (k', v) :: d' else (k', v') :: set k v d'
  end.

(** [d.get(k)] *)
Fixpoint get {V : Type} (k : string) (d : t V) : option V :=
  match d with
  | [] => None
  | (k', v') :: d' => if decide (k' = k) then Some v' else get k d'
  end.

Definition keys {V : Type} (d : t V) : list string := d.*1.

Definition values {V : Type} (d : t V) : list V := d.*2.
End Dict.

(** ** The data model *)

Inductive TrainPhase : Type := CRUISING | COASTING | BRAKING.

Module PowerConfig.
Record t : Type := mk {
  cruising_power : Qc;
  coasting_power : Qc;
  braking_regeneration : Qc
}.
End PowerConfig.

Module SubstationConfig.
Record t : Type := mk {
  max_power : Qc;
  normal_voltage : Qc;
  min_voltage : Qc;
  max_current : Qc
}.

(** The dataclass defaults: 1.5 kV, 1.0 kV, 5000 A. *)
Definition make (max_power : Qc) : t :=
  mk max_power (Q2Qc (3 # 2)) 1%Qc (Qc_of_Z 5000).
End SubstationConfig.

Module Position.
Record t : Type := mk { x : Qc }.

Definition distance_to (self other : t) : Qc := Qcabs (x self - x other)%Qc.
End Position.

Module Train.
Record t : Type := mk {
  train_id : string;
  power_config : PowerConfig.t;
  position : Position.t;
  current_phase : TrainPhase;
  current_section : option string
}.

(** [Train.__init__] *)
Definition init (train_id : string) (power_config : PowerConfig.t)
    (position : Position.t) : t :=
  mk train_id power_config position CRUISING None.

Definition get_current_power_draw (self : t) : Qc :=
  match current_phase self with
  | CRUISING => PowerConfig.cruising_power (power_config self)
  | COASTING => PowerConfig.coasting_power (power_config self)
  | BRAKING => PowerConfig.braking_regeneration (power_config self)
  end.

Definition move_to (self : t) (new_position : Position.t) : t :=
  mk (train_id self) (power_config self) new_position
     (current_phase self) (current_section self).
End Train.

Module Substation.
Record t : Type := mk {
  sub_id : string;
  config : SubstationConfig.t;
  position : Position.t;
  is_congested : bool;
  current_load : Qc
}.

(** [Substation.__init__] *)
Definition init (sub_id : string) (config : SubstationConfig.t)
    (position : Position.t) : t :=
  mk sub_id config position false 0%Qc.

Definition max_range : Qc := Qc_of_Z 10.

Definition calculate_power_contribution (self : t) (train : Train.t) : Qc :=
  let distance := Position.distance_to (position self) (Train.position train) in
  if bool_decide (max_range < distance)%Qc then 0%Qc
  else
    let power_factor := ((max_range - distance) / max_range)%Qc in
    (Train.get_current_power_draw train * power_factor)%Qc.

Definition update_congestion_status (self : t) : t :=
  mk (sub_id self) (config self) (position self)
     (bool_decide (SubstationConfig.max_power (config self) < current_load self)%Qc)
     (current_load self).

(** [self.current_load = v] *)
Definition set_current_load (v : Qc) (self : t) : t :=
  mk (sub_id self) (config self) (position self) (is_congested self) v.

(** [self.current_load += v] *)
Definition add_current_load (v : Qc) (self : t) : t :=
  set_current_load (current_load self + v)%Qc self.
End Substation.

Module NetworkController.
Record t : Type := mk {
  substations : Dict.t Substation.t;
  trains : Dict.t Train.t;
  track_length : Qc
}.

(** [NetworkController.__init__] *)
Definition init : t := mk Dict.empty Dict.empty 0%Qc.

Definition add_substation (self : t) (substation : Substation.t) : t :=
  mk (Dict.set (Substation.sub_id substation) substation (substations self))
     (trains self)
     (py_max (track_length self) (Position.x (Substation.position substation))).

Definition add_train (self : t) (train : Train.t) : t :=
  mk (substations self)
     (Dict.set (Train.train_id train) train (trains self))
     (track_length self).

(** The default value of the parameter [max_distance]. *)
Definition default_max_distance : Qc := Qc_of_Z 10.

(** The loop of [get_nearest_substations] over [substations.values()],
    from slot [i] on: the stations in range, each one (its reference)
    paired with its distance, in registry order. *)
Fixpoint nearby_from (i : nat) (subs : Dict.t Substation.t)
    (position : Position.t) (max_distance : Qc) : list (nat * Qc) :=
  match subs with
  | [] => []
  | (_, sub) :: rest =>
      let distance := Position.distance_to (Substation.position sub) position in
      if bool_decide (distance ≤ max_distance)%Qc
      then (i, distance) :: nearby_from (S i) rest position max_distance
      else nearby_from (S i) rest position max_distance
  end.

Definition nearest_of (subs : Dict.t Substation.t) (position : Position.t)
    (max_distance : Qc) : list (nat * Qc) :=
  py_sorted snd (nearby_from 0 subs position max_distance).

Definition get_nearest_substations (self : t) (position : Position.t)
    (max_distance : Qc) : list (nat * Qc) :=
  nearest_of (substations self) position max_distance.

(** The first loop of [update_power_distribution]. *)
Definition reset_loads (subs : Dict.t Substation.t) : Dict.t Substation.t :=
  prod_map id (Substation.set_current_load 0%Qc) <$> subs.

(** The innermost loop, [for sub, distance in nearby_subs], run on the
    station store; it returns the store and the final [remaining_power].
    A reference always designates a live object, so the last branch is
    never taken (see [nearest_resolves] and [distribute_length]). *)
Fixpoint distribute (train : Train.t) (nearby_subs : list (nat * Qc))
    (remaining_power : Qc) (subs : Dict.t Substation.t)
    : Dict.t Substation.t * Qc :=
  match nearby_subs with
  | [] => (subs, remaining_power)
  | (r, distance) :: rest =>
      if bool_decide (remaining_power ≤ 0)%Qc then (subs, remaining_power)
      else
        match subs !! r with
        | Some (k, sub) =>
            let contribution := Substation.calculate_power_contribution sub train in
            let actual_contribution := py_min contribution remaining_power in
            distribute train rest (remaining_power - actual_contribution)%Qc
              (<[r := (k, Substation.add_current_load actual_contribution sub)]> subs)
        | None => (subs, remaining_power)
        end
  end.

Definition out_of_range_warning (train : Train.t) : string :=
  "Warning: Train " +:+ Train.train_id train +:+
  " is out of range of any substation!".

(** The body of [for train in self.trains.values()]: the new station
    store and the lines printed. *)
Definition allocate_train (train : Train.t) (subs : Dict.t Substation.t)
    : Dict.t Substation.t * list string :=
  let nearby_subs := nearest_of subs (Train.position train) default_max_distance in
  match nearby_subs with
  | [] => (subs, [out_of_range_warning train])
  | _ :: _ =>
      let power_draw := Train.get_current_power_draw train in
      ((distribute train nearby_subs power_draw subs).1, [])
  end.

(** The loop over the trains, threading the store and the output. *)
Fixpoint allocate_trains (trains : list Train.t) (subs : Dict.t Substation.t)
    : Dict.t Substation.t * list string :=
  match trains with
  | [] => (subs, [])
  | train :: rest =>
      let '(subs1, out1) := allocate_train train subs in
      let '(subs2, out2) := allocate_trains rest subs1 in
      (subs2, out1 ++ out2)
  end.

Definition update_power_distribution (self : t) : t * list string :=
  let '(subs, out) :=
    allocate_trains (Dict.values (trains self)) (reset_loads (substations self)) in
  (mk subs (trains self) (track_length self), out).
End NetworkController.

(** The body of the simulation loop of [main], without the status report
    and the pause: the allocation pass, then the congestion update of
    every station. *)
Definition update_all_congestion (subs : Dict.t Substation.t)
    : Dict.t Substation.t :=
  prod_map id Substation.update_congestion_status <$> subs.

Definition timestep (controller : NetworkController.t)
    : NetworkController.t * list string :=
  let '(c, out) := NetworkController.update_power_distribution controller in
  (NetworkController.mk
     (update_all_congestion (NetworkController.substations c))
     (NetworkController.trains c) (NetworkController.track_length c), out).

(** ** Observations used in the statements *)

Definition load_at (subs : Dict.t Substation.t) (r : nat) : Qc :=
  match subs !! r with
  | Some (_, sub) => Substation.current_load sub
  | None => 0%Qc
  end.

Fixpoint Qc_sum (l : list Qc) : Qc :=
  match l with
  | [] => 0%Qc
  | q :: l' => (q + Qc_sum l')%Qc
  end.

Definition total_load (subs : Dict.t Substation.t) : Qc :=
  Qc_sum (Substation.current_load <$> Dict.values subs).

(** The load attributed to [train] at each station when the loop body
    runs on the store [subs], and its sum over the stations. *)
Definition attributed_at (train : Train.t) (subs : Dict.t Substation.t)
    (r : nat) : Qc :=
  (load_at (NetworkController.allocate_train train subs).1 r - load_at subs r)%Qc.


(** The station store on which the loop body runs for the train that
    follows the trains [before] in the pass over [self]. *)
Definition store_after (self : NetworkController.t) (before : list Train.t)
    : Dict.t Substation.t :=
  (NetworkController.allocate_trains before
     (NetworkController.reset_loads (NetworkController.substations self))).1.

(** What a store keeps when only loads change. *)
Definition same_but_load (a b : string * Substation.t) : Prop :=
  a.1 = b.1 ∧
  Substation.sub_id a.2 = Substation.sub_id b.2 ∧
  Substation.config a.2 = Substation.config b.2 ∧
  Substation.position a.2 = Substation.position b.2 ∧
  Substation.is_congested a.2 = Substation.is_congested b.2.

(** The congestion flag of a station agrees with its load. *)
Definition congestion_fresh (s : Substation.t) : Prop :=
  Substation.is_congested s = true ↔
  (SubstationConfig.max_power (Substation.config s) < Substation.current_load s)%Qc.

(** ** Scenarios *)

Definition station (id : string) (position threshold : Z) : Substation.t :=
  Substation.init id (SubstationConfig.make (Qc_of_Z threshold))
    (Position.mk (Qc_of_Z position)).

(** The power profile that [main] derives from a cruising power of 10. *)
Definition profile_10 : PowerConfig.t :=
  PowerConfig.mk (Qc_of_Z 10) (Q2Qc 2) (Q2Qc (-3 # 2)).

(** Two stations at 0 and 8 (threshold 100 each), one train at 4 drawing 10. *)
Definition two_station_network (id1 id2 tid : string) (coasting braking : Qc)
    : NetworkController.t :=
  NetworkController.add_train
    (NetworkController.add_substation
       (NetworkController.add_substation NetworkController.init
          (station id1 0 100))
       (station id2 8 100))
    (Train.init tid (PowerConfig.mk (Qc_of_Z 10) coasting braking)
       (Position.mk (Qc_of_Z 4))).

(** One station at 0 with threshold 5, one train at 0 cruising at 6. *)
Definition overloaded_network : NetworkController.t :=
  NetworkController.add_train
    (NetworkController.add_substation NetworkController.init (station "SUB_1" 0 5))
    (Train.init "TRAIN_1" (PowerConfig.mk (Qc_of_Z 6) 0%Qc 0%Qc)
       (Position.mk 0%Qc)).

(** A train that is braking at the position of the only station. *)
Definition braking_train : Train.t :=
  Train.mk "TRAIN_1" profile_10 (Position.mk 0%Qc) BRAKING None.

Definition braking_network : NetworkController.t :=
  NetworkController.add_train
    (NetworkController.add_substation NetworkController.init (station "SUB_1" 0 5))
    braking_train.

(** A second station object carrying the id of the station of
    [overloaded_network]. *)
Definition replacement_station : Substation.t := station "SUB_1" 3 7.

(** One station at 0; a train at 15, out of range, followed by a train at 0. *)
Definition far_train : Train.t :=
  Train.init "TRAIN_1" profile_10 (Position.mk (Qc_of_Z 15)).

Definition near_train : Train.t :=
  Train.init "TRAIN_2" profile_10 (Position.mk 0%Qc).

Definition out_of_range_network : NetworkController.t :=
  NetworkController.add_train
    (NetworkController.add_train
       (NetworkController.add_substation NetworkController.init
          (station "SUB_1" 0 5))
       far_train)
    near_train.

(** ** The arithmetic of the program, for any number system

    The numeric steps of [Position.distance_to],
    [Substation.calculate_power_contribution] and of the allocation loop,
    written once over an interface of the operations they use.  At the
    exact rationals they are the model above ([numeric_contribution],
    [numeric_trace]); at IEEE binary64, the [float] of the interpreter,
    they show what rounding does to a run. *)
Module Numeric.
Record arithmetic : Type := mk {
  num : Type;
  zero : num;
  ten : num;
  minus : num → num → num;
  times : num → num → num;
  divide : num → num → num;
  absolute : num → num;
  lt : num → num → bool;
  le : num → num → bool
}.

Section Core.
Context (A : arithmetic).

(** [abs(self.x - other.x)] *)
Definition distance_to (x other : num A) : num A :=
  absolute A (minus A x other).

Definition calculate_power_contribution (sub_x train_x power_draw : num A)
    : num A :=
  let distance := distance_to sub_x train_x in
  let max_range := ten A in
  if lt A max_range distance then zero A
  else
    let power_factor := divide A (minus A max_range distance) max_range in
    times A power_draw power_factor.

(** [min(a, b)] *)
Definition min (a b : num A) : num A := if lt A b a then b else a.

(** The values that [actual_contribution] takes in the loop over the
    stations at the coordinates [nearby], nearest first. *)
Fixpoint actual_contributions (nearby : list (num A))
    (train_x power_draw remaining_power : num A) : list (num A) :=
  match nearby with
  | [] => []
  | sub_x :: rest =>
      if le A remaining_power (zero A) then []
      else
        let contribution := calculate_power_contribution sub_x train_x power_draw in
        let actual_contribution := min contribution remaining_power in
        actual_contribution ::
          actual_contributions rest train_x power_draw
            (minus A remaining_power actual_contribution)
  end.
End Core.

(** Exact rational arithmetic. *)
Definition exact : arithmetic :=
  mk Qc 0%Qc (Qc_of_Z 10) Qcminus Qcmult Qcdiv Qcabs
    (λ a b, bool_decide (a < b)%Qc) (λ a b, bool_decide (a ≤ b)%Qc).






End Numeric.

(** ** The amounts that the allocation loop hands out *)

(** One execution of the body of the innermost loop: the station, the
    value of [remaining_power] before, and [actual_contribution]. *)
Record contribution : Type := mk_contribution {
  station_ref : nat;
  remaining_before : Qc;
  amount : Qc
}.

(** The executions of the body of the innermost loop, in order; the
    recursion is that of [NetworkController.distribute]. *)
Fixpoint distribute_trace (train : Train.t) (nearby_subs : list (nat * Qc))
    (remaining_power : Qc) (subs : Dict.t Substation.t) : list contribution :=
  match nearby_subs with
  | [] => []
  | (r, distance) :: rest =>
      if bool_decide (remaining_power ≤ 0)%Qc then []
      else
        match subs !! r with
        | Some (k, sub) =>
            let contribution := Substation.calculate_power_contribution sub train in
            let actual_contribution := py_min contribution remaining_power in
            mk_contribution r remaining_power actual_contribution ::
              distribute_trace train rest (remaining_power - actual_contribution)%Qc
                (<[r := (k, Substation.add_current_load actual_contribution sub)]> subs)
        | None => []
        end
  end.

(** The amounts handed out for [train] by the body of the loop over the
    trains, run on the store [subs]. *)
Definition allocate_train_trace (train : Train.t) (subs : Dict.t Substation.t)
    : list contribution :=
  distribute_trace train
    (NetworkController.nearest_of subs (Train.position train)
       NetworkController.default_max_distance)
    (Train.get_current_power_draw train) subs.



(** The coordinates of the stations of a list of references. *)
Definition station_xs (subs : Dict.t Substation.t) (nearby : list (nat * Qc))
    : list Qc :=
  omap (λ rd, (λ ks, Position.x (Substation.position ks.2)) <$> subs !! rd.1) nearby.

(** ** The set-up and the simulation loop of [main]

    [main] reads its numbers from the keyboard; the model takes the
    numbers read, in the order of the prompts. *)

(** [f"SUB_{i+1}"] and [f"TRAIN_{i+1}"] *)
Definition substation_name (i : nat) : string := "SUB_" +:+ pretty (i + 1).

Definition train_name (i : nat) : string := "TRAIN_" +:+ pretty (i + 1).

(** The loop [for i in range(num_substations)], from index [i] on; an
    input is the pair of the position and the threshold read. *)
Fixpoint register_substations (i : nat) (inputs : list (Qc * Qc))
    (controller : NetworkController.t) : NetworkController.t :=
  match inputs with
  | [] => controller
  | (position, threshold) :: rest =>
      let config := SubstationConfig.make threshold in
      let substation :=
        Substation.init (substation_name i) config (Position.mk position) in
      register_substations (S i) rest
        (NetworkController.add_substation controller substation)
  end.

(** The power profile built from the cruising power read: coasting is
    0.2 times and braking -0.15 times the cruising power. *)
Definition main_power_config (cruising_power : Qc) : PowerConfig.t :=
  PowerConfig.mk cruising_power
    (cruising_power * Q2Qc (1 # 5))%Qc
    (- cruising_power * Q2Qc (3 # 20))%Qc.

(** The loop [for i in range(num_trains)], from index [i] on. *)
Fixpoint register_trains (i : nat) (power_config : PowerConfig.t)
    (positions : list Qc) (controller : NetworkController.t)
    : NetworkController.t :=
  match positions with
  | [] => controller
  | position :: rest =>
      let train := Train.init (train_name i) power_config (Position.mk position) in
      register_trains (S i) power_config rest
        (NetworkController.add_train controller train)
  end.

Definition main_setup (stations : list (Qc * Qc)) (cruising_power : Qc)
    (train_positions : list Qc) : NetworkController.t :=
  register_trains 0 (main_power_config cruising_power) train_positions
    (register_substations 0 stations NetworkController.init).

(** The controller after [n] rounds of the simulation loop. *)
Definition run_timesteps (n : nat) (controller : NetworkController.t)
    : NetworkController.t :=
  Nat.iter n (λ c, (timestep c).1) controller.

(** ** Further observations *)

(** The controllers that the registration interface builds. *)
Inductive registered : NetworkController.t → Prop :=
  | registered_init : registered NetworkController.init
  | registered_substation self substation :
      registered self →
      registered (NetworkController.add_substation self substation)
  | registered_train self train :
      registered self → registered (NetworkController.add_train self train).

(** The contribution that the station in slot [r] computes for [train]. *)
Definition contribution_at (train : Train.t) (subs : Dict.t Substation.t)
    (r : nat) : Qc :=
  match subs !! r with
  | Some (_, sub) => Substation.calculate_power_contribution sub train
  | None => 0%Qc
  end.

(** No station is within the default range of [train]. *)
Definition out_of_range (subs : Dict.t Substation.t) (train : Train.t) : bool :=
  bool_decide (NetworkController.nearest_of subs (Train.position train)
                 NetworkController.default_max_distance = []).

(** A station with its congestion flag lowered, and a store with all
    flags lowered. *)
Definition clear_flag (s : Substation.t) : Substation.t :=
  Substation.mk (Substation.sub_id s) (Substation.config s)
    (Substation.position s) false (Substation.current_load s).

Definition clear_flags (subs : Dict.t Substation.t) : Dict.t Substation.t :=
  prod_map id clear_flag <$> subs.

(** Nearer, or as near and registered earlier. *)
Definition nearer (a b : nat * Qc) : Prop :=
  (a.2 < b.2)%Qc ∨ (a.2 = b.2 ∧ a.1 < b.1).

(** ** Arithmetic and list facts *)

Lemma py_min_le_r (a b : Qc) : (py_min a b ≤ b)%Qc.
Proof.
  unfold py_min. case_bool_decide as H.
  - apply Qcle_refl.
  - by apply Qcle_ngt.
Qed.

Lemma Qc_sub_min_nonneg (a b : Qc) : (0 ≤ b - py_min a b)%Qc.
Proof.
  pose proof (py_min_le_r a b) as H.
  apply (Qcplus_le_mono_r _ _ (py_min a b)).
  by replace (b - py_min a b + py_min a b)%Qc with b by ring; rewrite Qcplus_0_l.
Qed.

Section PySortedFacts.
Context {A : Type} (key : A → Qc).

Lemma py_insert_perm (a : A) (l : list A) : py_insert key a l ≡ₚ a :: l.
Proof.
  induction l as [|b l IH]; simpl; [done|].
  case_bool_decide; [|done].
  by rewrite IH, Permutation_swap.
Qed.

Lemma py_sorted_perm (l : list A) : py_sorted key l ≡ₚ l.
Proof.
  induction l as [|a l IH]; simpl; [done|].
  by rewrite py_insert_perm, IH.
Qed.

Lemma py_insert_sorted (a : A) (l : list A) :
  StronglySorted (key_le key) l → StronglySorted (key_le key) (py_insert key a l).
Proof.
  induction 1 as [|b l Hl IH Hb]; simpl.
  - repeat constructor.
  - case_bool_decide as Hlt.
    + constructor; [done|].
      rewrite py_insert_perm. constructor; [|done].
      by apply Qclt_le_weak.
    + apply Qcle_ngt in Hlt.
      constructor; [by constructor|].
      constructor; [done|].
      eapply Forall_impl; [exact Hb|].
      intros c Hc. by apply Qcle_trans with (key b).
Qed.

Lemma py_sorted_sorted (l : list A) : StronglySorted (key_le key) (py_sorted key l).
Proof.
  induction l as [|a l IH]; simpl; [constructor|].
  by apply py_insert_sorted.
Qed.
End PySortedFacts.

(** ** Rational arithmetic *)

Lemma Qc_this_plus (a b : Qc) : (this (a + b)%Qc == this a + this b)%Q.
Proof. unfold Qcplus. simpl. apply Qred_correct. Qed.

Lemma Qc_this_opp (a : Qc) : (this (- a)%Qc == - this a)%Q.
Proof. unfold Qcopp. simpl. apply Qred_correct. Qed.

Lemma Qc_this_minus (a b : Qc) : (this (a - b)%Qc == this a - this b)%Q.
Proof. unfold Qcminus. by rewrite Qc_this_plus, Qc_this_opp. Qed.

Lemma Qc_this_mult (a b : Qc) : (this (a * b)%Qc == this a * this b)%Q.
Proof. unfold Qcmult. simpl. apply Qred_correct. Qed.

Lemma Qc_eq_this (a b : Qc) : a = b ↔ (this a == this b)%Q.
Proof. split; [by intros ->|apply Qc_is_canon]. Qed.

(** Linear arithmetic on [Qc], through the underlying fractions. *)
Ltac qc_to_q :=
  cbn [fst snd] in *;
  unfold Qcle, Qclt in *;
  repeat match goal with
  | H : @eq Qc _ _ |- _ => apply Qc_eq_this in H
  | H : ¬ @eq Qc _ _ |- _ => rewrite Qc_eq_this in H
  | |- @eq Qc _ _ => apply Qc_eq_this
  | |- ¬ @eq Qc _ _ => rewrite Qc_eq_this
  end;
  repeat first
    [ setoid_rewrite Qc_this_plus | setoid_rewrite Qc_this_minus
    | setoid_rewrite Qc_this_opp | setoid_rewrite Qc_this_mult ];
  repeat match goal with
  | H : _ |- _ => first
    [ setoid_rewrite Qc_this_plus in H | setoid_rewrite Qc_this_minus in H
    | setoid_rewrite Qc_this_opp in H | setoid_rewrite Qc_this_mult in H ]
  end;
  change (this 0%Qc) with 0%Q in *; change (this 1%Qc) with 1%Q in *.

Ltac qc_lra := qc_to_q; lra.

Lemma py_min_cases (a b : Qc) :
  (py_min a b = a ∧ (a ≤ b)%Qc) ∨ (py_min a b = b ∧ (b < a)%Qc).
Proof.
  unfold py_min. case_bool_decide as H; [by right|left].
  split; [done|]. by apply Qcle_ngt.
Qed.

Lemma py_max_cases (a b : Qc) :
  (py_max a b = a ∧ (b ≤ a)%Qc) ∨ (py_max a b = b ∧ (a < b)%Qc).
Proof.
  unfold py_max. case_bool_decide as H; [by right|left].
  split; [done|]. by apply Qcle_ngt.
Qed.

(** ** The contribution of a station *)

Lemma contribution_far (s : Substation.t) (v : Train.t) :
  (Qc_of_Z 10 < Position.distance_to (Substation.position s) (Train.position v))%Qc →
  Substation.calculate_power_contribution s v = 0%Qc.
Proof.
  intros Hd. unfold Substation.calculate_power_contribution.
  by rewrite bool_decide_eq_true_2.
Qed.

Lemma contribution_near (s : Substation.t) (v : Train.t) :
  let d := Position.distance_to (Substation.position s) (Train.position v) in
  (d ≤ Qc_of_Z 10)%Qc →
  (this (Substation.calculate_power_contribution s v)
   == this (Train.get_current_power_draw v) * ((10 - this d) * (1 # 10)))%Q.
Proof.
  intros d Hd. unfold Substation.calculate_power_contribution. fold d.
  rewrite bool_decide_eq_false_2 by by apply Qcle_not_lt.
  unfold Qcdiv. rewrite !Qc_this_mult, Qc_this_minus. reflexivity.
Qed.

Lemma contribution_cases (s : Substation.t) (v : Train.t) :
  let d := Position.distance_to (Substation.position s) (Train.position v) in
  ((Qc_of_Z 10 < d)%Qc ∧ Substation.calculate_power_contribution s v = 0%Qc) ∨
  ((0 ≤ d ≤ Qc_of_Z 10)%Qc ∧
   (this (Substation.calculate_power_contribution s v)
    == this (Train.get_current_power_draw v) * ((10 - this d) * (1 # 10)))%Q).
Proof.
  intros d. destruct (Qclt_le_dec (Qc_of_Z 10) d) as [Hd|Hd].
  - left. split; [done|]. by apply contribution_far.
  - right. split; [|by apply contribution_near].
    split; [apply Qcabs_nonneg|done].
Qed.

Lemma contribution_bounds (s : Substation.t) (v : Train.t) :
  (0 ≤ Train.get_current_power_draw v)%Qc →
  (0 ≤ Substation.calculate_power_contribution s v
     ≤ Train.get_current_power_draw v)%Qc.
Proof.
  intros Hdraw.
  destruct (contribution_cases s v) as [[Hd Hc]|[[Hd0 Hd] Hc]];
    split; qc_to_q; change (this (Qc_of_Z 10)) with 10%Q in *; nra.
Qed.

(** ** Facts about the controller *)

Section ControllerFacts.
Import NetworkController.

(** Two stores agree on everything but the loads exactly when they are
    equal once the loads are reset. *)
Lemma reset_loads_idemp (subs : Dict.t Substation.t) :
  reset_loads (reset_loads subs) = reset_loads subs.
Proof.
  unfold reset_loads. rewrite <-list_fmap_compose.
  apply list_fmap_ext. by intros _ [k s] _.
Qed.

Lemma reset_loads_insert (subs : Dict.t Substation.t) r k sub v :
  subs !! r = Some (k, sub) →
  reset_loads (<[r := (k, Substation.add_current_load v sub)]> subs)
  = reset_loads subs.
Proof.
  intros H. unfold reset_loads. rewrite list_fmap_insert.
  apply list_insert_id. by rewrite list_lookup_fmap, H.
Qed.

Lemma nearby_from_reset i subs position max_distance :
  nearby_from i (reset_loads subs) position max_distance
  = nearby_from i subs position max_distance.
Proof.
  revert i. induction subs as [|[k s] subs IH]; intros i; simpl; [done|].
  by rewrite !IH.
Qed.

Lemma nearest_of_frame subs subs' position max_distance :
  reset_loads subs' = reset_loads subs →
  nearest_of subs' position max_distance = nearest_of subs position max_distance.
Proof.
  intros H. unfold nearest_of.
  by rewrite <-(nearby_from_reset _ subs'), H, nearby_from_reset.
Qed.

Lemma elem_of_nearby_from i subs position max_distance r d :
  (r, d) ∈ nearby_from i subs position max_distance ↔
  ∃ j k sub, r = i + j ∧ subs !! j = Some (k, sub) ∧
    d = Position.distance_to (Substation.position sub) position ∧
    (d ≤ max_distance)%Qc.
Proof.
  revert i. induction subs as [|[k s] subs IH]; intros i; simpl.
  - split; [by intros ?%elem_of_nil|]. by intros (j & ? & ? & _ & ? & _).
  - assert ((r, d) ∈ nearby_from (S i) subs position max_distance ↔
      ∃ j k' sub, r = i + S j ∧ subs !! j = Some (k', sub) ∧
        d = Position.distance_to (Substation.position sub) position ∧
        (d ≤ max_distance)%Qc) as IH'.
    { rewrite IH. by setoid_rewrite Nat.add_succ_r. }
    case_bool_decide as Hd; [rewrite elem_of_cons|]; rewrite IH'; split.
    + intros [[= -> ->]|(j & k' & sub & ?)].
      * exists 0, k, s. by rewrite Nat.add_0_r.
      * by exists (S j), k', sub.
    + intros ([|j] & k' & sub & -> & Hj & -> & Hle); simpl in Hj.
      * left. injection Hj as <- <-. by rewrite Nat.add_0_r.
      * right. by exists j, k', sub.
    + intros (j & k' & sub & ?). by exists (S j), k', sub.
    + intros ([|j] & k' & sub & -> & Hj & -> & Hle); simpl in Hj.
      * injection Hj as <- <-. done.
      * by exists j, k', sub.
Qed.

Lemma nearby_from_refs i subs position max_distance :
  Forall (λ r, i ≤ r) (nearby_from i subs position max_distance).*1 ∧
  NoDup (nearby_from i subs position max_distance).*1.
Proof.
  revert i. induction subs as [|[k s] subs IH]; intros i; simpl.
  - split; constructor.
  - destruct (IH (S i)) as [Hge Hnd].
    assert (Forall (λ r, i ≤ r) (nearby_from (S i) subs position max_distance).*1).
    { eapply Forall_impl; [exact Hge|]. simpl. lia. }
    case_bool_decide; [|done]. simpl. split; [by constructor|].
    constructor; [|done].
    intros Hin. rewrite Forall_forall in Hge. apply Hge in Hin. lia.
Qed.

Lemma elem_of_nearest_of subs position max_distance r d :
  (r, d) ∈ nearest_of subs position max_distance ↔
  ∃ k sub, subs !! r = Some (k, sub) ∧
    d = Position.distance_to (Substation.position sub) position ∧
    (d ≤ max_distance)%Qc.
Proof.
  unfold nearest_of. rewrite py_sorted_perm, elem_of_nearby_from. split.
  - intros (j & k & sub & -> & ?). by exists k, sub.
  - intros (k & sub & ?). by exists r, k, sub.
Qed.


(** The innermost loop: it keeps the shape of the store and touches only
    loads. *)
Lemma distribute_length train nearby remaining subs :
  length (distribute train nearby remaining subs).1 = length subs.
Proof.
  revert remaining subs.
  induction nearby as [|[r d] nearby IH]; intros remaining subs; simpl; [done|].
  case_bool_decide; [done|].
  destruct (subs !! r) as [[k sub]|]; [|done].
  by rewrite IH, length_insert.
Qed.

Lemma distribute_frame train nearby remaining subs :
  reset_loads (distribute train nearby remaining subs).1 = reset_loads subs.
Proof.
  revert remaining subs.
  induction nearby as [|[r d] nearby IH]; intros remaining subs; simpl; [done|].
  case_bool_decide; [done|].
  destruct (subs !! r) as [[k sub]|] eqn:Hr; [|done].
  by rewrite IH, reset_loads_insert.
Qed.

Lemma distribute_nonpos train nearby remaining subs :
  (remaining ≤ 0)%Qc → distribute train nearby remaining subs = (subs, remaining).
Proof.
  intros Hrem. destruct nearby as [|[r d] nearby]; simpl; [done|].
  by rewrite bool_decide_eq_true_2.
Qed.

Lemma allocate_train_frame train subs :
  reset_loads (allocate_train train subs).1 = reset_loads subs.
Proof.
  unfold allocate_train.
  destruct (nearest_of _ _ _); [done|]. apply distribute_frame.
Qed.

Lemma allocate_train_length train subs :
  length (allocate_train train subs).1 = length subs.
Proof.
  unfold allocate_train.
  destruct (nearest_of _ _ _); [done|]. apply distribute_length.
Qed.

Lemma allocate_trains_frame trains subs :
  reset_loads (allocate_trains trains subs).1 = reset_loads subs.
Proof.
  revert subs. induction trains as [|train trains IH]; intros subs; simpl; [done|].
  pose proof (allocate_train_frame train subs) as H1.
  destruct (allocate_train train subs) as [subs1 out1].
  specialize (IH subs1).
  destruct (allocate_trains trains subs1) as [subs2 out2]. simpl in *.
  by rewrite IH.
Qed.

Lemma allocate_trains_app pre post subs :
  allocate_trains (pre ++ post) subs
  = ((allocate_trains post (allocate_trains pre subs).1).1,
     (allocate_trains pre subs).2
     ++ (allocate_trains post (allocate_trains pre subs).1).2).
Proof.
  revert subs. induction pre as [|train pre IH]; intros subs; simpl.
  - by destruct (allocate_trains post subs).
  - destruct (allocate_train train subs) as [subs1 out1].
    rewrite IH.
    destruct (allocate_trains pre subs1) as [subs2 out2]. simpl.
    by rewrite (assoc_L (++)).
Qed.

Lemma update_power_distribution_unfold self :
  update_power_distribution self
  = (mk (allocate_trains (Dict.values (trains self))
           (reset_loads (substations self))).1
        (trains self) (track_length self),
     (allocate_trains (Dict.values (trains self))
        (reset_loads (substations self))).2).
Proof. unfold update_power_distribution. by destruct (allocate_trains _ _). Qed.

Lemma reset_loads_same_but_load subs subs' :
  reset_loads subs' = reset_loads subs → Forall2 same_but_load subs subs'.
Proof.
  revert subs'. induction subs as [|[k s] subs IH]; intros [|[k' s'] subs'] H;
    simplify_eq/=; constructor; [|by apply IH].
  by repeat split.
Qed.

Lemma allocate_train_nonpos train subs :
  (Train.get_current_power_draw train ≤ 0)%Qc →
  (allocate_train train subs).1 = subs.
Proof.
  intros Hdraw. unfold allocate_train.
  destruct (nearest_of _ _ _) as [|rd nearby]; [done|].
  by rewrite distribute_nonpos.
Qed.

Lemma update_all_congestion_fresh subs :
  Forall (λ ks, Substation.is_congested ks.2 = true ↔
     (SubstationConfig.max_power (Substation.config ks.2)
      < Substation.current_load ks.2)%Qc)
    (update_all_congestion subs).
Proof.
  apply Forall_fmap, Forall_true. intros [k s]. simpl.
  apply bool_decide_eq_true.
Qed.

(** The dictionary assignment. *)
Lemma dict_get_set {V} (k : string) (v : V) (d : Dict.t V) :
  Dict.get k (Dict.set k v d) = Some v.
Proof.
  induction d as [|[k' v'] d IH]; simpl.
  - by rewrite decide_True.
  - destruct (decide (k' = k)) as [->|Hne]; simpl.
    + by rewrite decide_True.
    + by rewrite decide_False.
Qed.

Lemma dict_get_set_ne {V} (k k0 : string) (v : V) (d : Dict.t V) :
  k ≠ k0 → Dict.get k0 (Dict.set k v d) = Dict.get k0 d.
Proof.
  intros Hk. induction d as [|[k' v'] d IH]; simpl.
  - by rewrite decide_False.
  - destruct (decide (k' = k)) as [->|Hne]; simpl.
    + by rewrite !decide_False.
    + by rewrite IH.
Qed.

Lemma dict_keys_set_dup {V} (k : string) (v : V) (d : Dict.t V) :
  k ∈ Dict.keys d → Dict.keys (Dict.set k v d) = Dict.keys d.
Proof.
  unfold Dict.keys. induction d as [|[k' v'] d IH]; simpl.
  - by intros ?%elem_of_nil.
  - intros [->|Hin]%elem_of_cons.
    + by rewrite decide_True.
    + destruct (decide (k' = k)) as [->|Hne]; [done|].
      rewrite fmap_cons. f_equal. by apply IH.
Qed.

Lemma dict_keys_set_new {V} (k : string) (v : V) (d : Dict.t V) :
  k ∉ Dict.keys d → Dict.keys (Dict.set k v d) = Dict.keys d ++ [k].
Proof.
  unfold Dict.keys. induction d as [|[k' v'] d IH]; simpl; [done|].
  intros [Hne Hin]%not_elem_of_cons.
  rewrite decide_False by done. rewrite fmap_cons. simpl. f_equal. by apply IH.
Qed.






End ControllerFacts.

(** ** The properties *)

Section Properties.
Import NetworkController.




(** C2, as stated, fails: [update_power_distribution] does not touch the
    congestion flags.  With a station of threshold 5 loaded with 6, the
    flag is still false when the pass returns. *)
Lemma C2_stale_flag_counterexample :
  let subs := Dict.values
    (substations (update_power_distribution overloaded_network).1) in
  Substation.current_load <$> subs = [Qc_of_Z 6] ∧
  SubstationConfig.max_power ∘ Substation.config <$> subs = [Qc_of_Z 5] ∧
  Substation.is_congested <$> subs = [false] ∧
  ¬ Forall congestion_fresh subs.
Proof.
  repeat split.
  - vm_compute. f_equal. by apply Qc_is_canon.
  - intros [Hfresh _]%Forall_cons. destruct Hfresh as [_ Hfresh].
    by discriminate Hfresh.
Qed.

(** C2 (amended): [update_power_distribution] itself leaves every
    congestion flag as it was; the simulation step of [main] calls
    [update_congestion_status] on every station right after the pass, so
    that at the end of the step every flag agrees with the loads that the
    pass has just computed. *)
Theorem C2_congestion_updated_by_timestep (self : t) :
  Forall2 (λ s s', Substation.is_congested s' = Substation.is_congested s)
    (Dict.values (substations self))
    (Dict.values (substations (update_power_distribution self).1)) ∧
  Forall congestion_fresh (Dict.values (substations (timestep self).1)) ∧
  Substation.current_load <$> Dict.values (substations (timestep self).1)
  = Substation.current_load <$>
      Dict.values (substations (update_power_distribution self).1).
Proof.
  unfold timestep. rewrite update_power_distribution_unfold. cbn [fst substations].
  set (subs' := (allocate_trains _ _).1).
  assert (reset_loads subs' = reset_loads (substations self)) as Hframe.
  { unfold subs'. by rewrite allocate_trains_frame, reset_loads_idemp. }
  split; [|split].
  - apply reset_loads_same_but_load in Hframe. unfold Dict.values.
    apply Forall2_fmap. eapply Forall2_impl; [exact Hframe|].
    by intros a b (_ & _ & _ & _ & ->).
  - unfold Dict.values. apply Forall_fmap.
    eapply Forall_impl; [apply update_all_congestion_fresh|]. by intros [k s].
  - unfold Dict.values, update_all_congestion.
    rewrite <-!list_fmap_compose. apply list_fmap_ext. by intros _ [k s] _.
Qed.



(** C4: [get_nearest_substations] returns exactly the registered
    stations whose distance to the position is at most [max_distance]
    (10 by default), each one once and paired with its distance, in
    ascending order of distance. *)
Theorem C4_nearest_substations_exact_and_sorted (self : t)
    (position : Position.t) (max_distance : Qc) :
  let result := get_nearest_substations self position max_distance in
  (∀ r d, (r, d) ∈ result ↔
     ∃ k sub, substations self !! r = Some (k, sub) ∧
       d = Position.distance_to (Substation.position sub) position ∧
       (d ≤ max_distance)%Qc) ∧
  NoDup result.*1 ∧
  StronglySorted (λ a b, (a.2 ≤ b.2)%Qc) result ∧
  default_max_distance = Qc_of_Z 10.
Proof.
  unfold get_nearest_substations. repeat split.
  - by intros ?%elem_of_nearest_of.
  - by intros ?%elem_of_nearest_of.
  - unfold nearest_of. rewrite py_sorted_perm. apply nearby_from_refs.
  - apply (py_sorted_sorted snd).
Qed.

(** C5: in an allocation pass, a train for which [get_nearest_substations]
    returns the empty list makes the pass print the warning and skip the
    train: the loop body leaves the station store as it found it, and the
    pass goes on with the remaining trains from that same store and
    returns. *)
Theorem C5_out_of_range_train_skipped (self : t) (before after : list Train.t)
    (train : Train.t) :
  Dict.values (trains self) = before ++ train :: after →
  get_nearest_substations self (Train.position train) default_max_distance = [] →
  let subs := store_after self before in
  allocate_train train subs = (subs, [out_of_range_warning train]) ∧
  update_power_distribution self
  = (mk (allocate_trains after subs).1 (trains self) (track_length self),
     (allocate_trains before (reset_loads (substations self))).2
     ++ out_of_range_warning train :: (allocate_trains after subs).2).
Proof.
  intros Htrains Hnear subs.
  assert (allocate_train train subs = (subs, [out_of_range_warning train])) as Hskip.
  { unfold allocate_train. unfold get_nearest_substations in Hnear.
    rewrite (nearest_of_frame (substations self)); [by rewrite Hnear|].
    unfold subs, store_after.
    by rewrite allocate_trains_frame, reset_loads_idemp. }
  split; [done|].
  rewrite update_power_distribution_unfold, Htrains, allocate_trains_app.
  fold (store_after self before). fold subs.
  cbn [allocate_trains fst snd]. rewrite Hskip.
  by destruct (allocate_trains after subs).
Qed.


(** C5 at the network whose first train stands at 15, out of range of the
    station at 0, and is followed by a train at 0. *)
Lemma C5_out_of_range_train_skipped_witness :
  let subs := store_after out_of_range_network [] in
  allocate_train far_train subs = (subs, [out_of_range_warning far_train]) ∧
  update_power_distribution out_of_range_network
  = (mk (allocate_trains [near_train] subs).1 (trains out_of_range_network)
       (track_length out_of_range_network),
     (allocate_trains [] (reset_loads (substations out_of_range_network))).2
     ++ out_of_range_warning far_train :: (allocate_trains [near_train] subs).2).
Proof.
  apply (C5_out_of_range_train_skipped out_of_range_network [] [near_train]
           far_train).
  - reflexivity.
  - reflexivity.
Defined.

(** C6: [update_congestion_status] changes nothing but the congestion
    flag, and afterwards the flag is true if and only if the current load
    of the station is strictly greater than its [max_power]; a load equal
    to [max_power] gives a false flag. *)
Theorem C6_congestion_flag_iff_overload (s : Substation.t) :
  let s' := Substation.update_congestion_status s in
  (Substation.is_congested s' = true ↔
   (SubstationConfig.max_power (Substation.config s) < Substation.current_load s)%Qc) ∧
  Substation.current_load s' = Substation.current_load s ∧
  Substation.config s' = Substation.config s ∧
  Substation.sub_id s' = Substation.sub_id s ∧
  Substation.position s' = Substation.position s ∧
  congestion_fresh s' ∧
  Substation.is_congested
    (Substation.update_congestion_status
       (Substation.set_current_load
          (SubstationConfig.max_power (Substation.config s)) s)) = false.
Proof.
  intros s'. split; [apply bool_decide_eq_true|].
  do 4 (split; [reflexivity|]).
  split; [apply bool_decide_eq_true|].
  apply bool_decide_eq_false, Qcle_not_lt, Qcle_refl.
Qed.

(** C7: with two stations at 0 and 8 (threshold 100 each, inserted in
    that order) and one train at 4 drawing 10, one allocation pass gives
    load 6 to the station inserted first and load 4 to the other one, 10
    in total, and prints nothing. *)
Theorem C7_two_station_scenario (id1 id2 tid : string) (coasting braking : Qc) :
  id1 ≠ id2 →
  let result := update_power_distribution
                  (two_station_network id1 id2 tid coasting braking) in
  (λ ks, (ks.1, Substation.current_load ks.2)) <$> substations result.1
  = [(id1, Qc_of_Z 6); (id2, Qc_of_Z 4)] ∧
  total_load (substations result.1) = Qc_of_Z 10 ∧
  result.2 = [].
Proof.
  intros Hid.
  unfold two_station_network, add_train, add_substation, station, Substation.init.
  cbn [Dict.set substations trains track_length init Dict.empty Substation.sub_id].
  rewrite decide_False by done.
  cbn [Dict.set].
  repeat split.
  - vm_compute.
    f_equal; [|f_equal]; f_equal; by apply Qc_is_canon.
  - by apply Qc_is_canon.
Qed.

(** C7 with the ids and the power profile that [main] generates. *)
Lemma C7_two_station_scenario_witness :
  let result := update_power_distribution
                  (two_station_network "SUB_1" "SUB_2" "TRAIN_1"
                     (Q2Qc 2) (Q2Qc (-3 # 2))) in
  (λ ks, (ks.1, Substation.current_load ks.2)) <$> substations result.1
  = [("SUB_1", Qc_of_Z 6); ("SUB_2", Qc_of_Z 4)] ∧
  total_load (substations result.1) = Qc_of_Z 10 ∧
  result.2 = [].
Proof.
  apply (C7_two_station_scenario "SUB_1" "SUB_2" "TRAIN_1" (Q2Qc 2) (Q2Qc (-3 # 2))).
  discriminate.
Defined.

(** C8, as stated, fails: registering a second station under an id that
    is already registered is accepted without any error, and the new
    station takes the place of the old one. *)
Lemma C8_duplicate_id_counterexample :
  Substation.sub_id replacement_station ∈ Dict.keys (substations overloaded_network) ∧
  Dict.get "SUB_1" (substations overloaded_network) = Some (station "SUB_1" 0 5) ∧
  Dict.get "SUB_1"
    (substations (add_substation overloaded_network replacement_station))
  = Some replacement_station ∧
  replacement_station ≠ station "SUB_1" 0 5.
Proof.
  repeat split.
  - by apply list_elem_of_singleton.
  - discriminate.
Qed.

(** C8 (amended): registering a station whose id is already registered
    is accepted silently: the station registry keeps its ids, in the same
    order, and the new station replaces the one registered under that
    id.  The same holds for registering a train whose id is already
    registered. *)
Theorem C8_duplicate_id_replaces (self : t) (substation : Substation.t)
    (train : Train.t) :
  (Substation.sub_id substation ∈ Dict.keys (substations self) →
   Dict.keys (substations (add_substation self substation))
   = Dict.keys (substations self) ∧
   Dict.get (Substation.sub_id substation)
     (substations (add_substation self substation)) = Some substation) ∧
  (Train.train_id train ∈ Dict.keys (trains self) →
   Dict.keys (trains (add_train self train)) = Dict.keys (trains self) ∧
   Dict.get (Train.train_id train) (trains (add_train self train)) = Some train).
Proof.
  unfold add_substation, add_train. cbn [substations trains].
  split; intros Hin; by rewrite dict_keys_set_dup, dict_get_set.
Qed.

(** C8 (amended) for a duplicate station on a controller without trains,
    and for a duplicate train on a controller without stations. *)
Lemma C8_duplicate_id_replaces_witness :
  let with_station := add_substation init (station "SUB_1" 0 5) in
  let with_train := add_train init near_train in
  (Dict.keys (substations (add_substation with_station replacement_station))
   = Dict.keys (substations with_station) ∧
   Dict.get (Substation.sub_id replacement_station)
     (substations (add_substation with_station replacement_station))
   = Some replacement_station) ∧
  (Dict.keys (trains (add_train with_train (Train.move_to near_train (Position.mk 1%Qc))))
   = Dict.keys (trains with_train) ∧
   Dict.get (Train.train_id near_train)
     (trains (add_train with_train (Train.move_to near_train (Position.mk 1%Qc))))
   = Some (Train.move_to near_train (Position.mk 1%Qc))).
Proof.
  split.
  - apply (C8_duplicate_id_replaces (add_substation init (station "SUB_1" 0 5))
             replacement_station near_train).
    by apply list_elem_of_singleton.
  - apply (C8_duplicate_id_replaces (add_train init near_train)
             replacement_station (Train.move_to near_train (Position.mk 1%Qc))).
    by apply list_elem_of_singleton.
Defined.

(** C9: in an allocation pass, a train whose current power draw is zero
    or negative adds no load to any station: the loop body returns the
    station store unchanged, so the pass ends with the loads it would
    compute without that train. *)
Theorem C9_nonpositive_draw_adds_no_load (self : t) (before after : list Train.t)
    (train : Train.t) :
  Dict.values (trains self) = before ++ train :: after →
  (Train.get_current_power_draw train ≤ 0)%Qc →
  let subs := store_after self before in
  (allocate_train train subs).1 = subs ∧
  (∀ r, attributed_at train subs r = 0%Qc) ∧
  substations (update_power_distribution self).1
  = (allocate_trains (before ++ after) (reset_loads (substations self))).1.
Proof.
  intros Htrains Hdraw subs.
  pose proof (allocate_train_nonpos train subs Hdraw) as Hsame.
  split; [done|]. split.
  - intros r. unfold attributed_at. rewrite Hsame. ring.
  - rewrite update_power_distribution_unfold, Htrains, !allocate_trains_app.
    fold (store_after self before). fold subs.
    cbn [allocate_trains fst substations].
    destruct (allocate_train train subs) as [subs1 out1]. simpl in Hsame. subst subs1.
    by destruct (allocate_trains after subs).
Qed.

(** C9 at the braking train standing at the only station. *)
Lemma C9_nonpositive_draw_adds_no_load_witness :
  let subs := store_after braking_network [] in
  (allocate_train braking_train subs).1 = subs ∧
  (∀ r, attributed_at braking_train subs r = 0%Qc) ∧
  substations (update_power_distribution braking_network).1
  = (allocate_trains ([] ++ []) (reset_loads (substations braking_network))).1.
Proof.
  apply (C9_nonpositive_draw_adds_no_load braking_network [] [] braking_train).
  - reflexivity.
  - by vm_compute.
Defined.

(** C10: an allocation pass changes nothing but the current load of
    stations: the train registry (hence every train's position, phase
    and power profile) and the track length are the same afterwards, and
    the station registry has the same ids in the same order, each station
    with the same id, configuration, position and congestion flag. *)
Theorem C10_update_power_distribution_frame (self : t) :
  let self' := (update_power_distribution self).1 in
  trains self' = trains self ∧
  track_length self' = track_length self ∧
  Dict.keys (substations self') = Dict.keys (substations self) ∧
  Forall2 (λ s s',
      Substation.sub_id s' = Substation.sub_id s ∧
      Substation.config s' = Substation.config s ∧
      Substation.position s' = Substation.position s ∧
      Substation.is_congested s' = Substation.is_congested s)
    (Dict.values (substations self)) (Dict.values (substations self')).
Proof.
  rewrite update_power_distribution_unfold. cbn [fst substations trains track_length].
  set (subs' := (allocate_trains _ _).1).
  assert (Forall2 same_but_load (substations self) subs') as Hframe.
  { apply reset_loads_same_but_load. unfold subs'.
    by rewrite allocate_trains_frame, reset_loads_idemp. }
  repeat split.
  - unfold Dict.keys. symmetry. apply list_eq_Forall2, Forall2_fmap.
    eapply Forall2_impl; [exact Hframe|]. by intros a b [? _].
  - unfold Dict.values. apply Forall2_fmap.
    eapply Forall2_impl; [exact Hframe|].
    by intros a b (_ & -> & -> & -> & ->).
Qed.
End Properties.

Section FurtherProperties.
Import NetworkController.

(** X1: the distance between two positions is symmetric and never
    negative, and it is zero exactly for equal coordinates. *)
Theorem X1_distance_to_metric (a b : Position.t) :
  Position.distance_to a b = Position.distance_to b a ∧
  (0 ≤ Position.distance_to a b)%Qc ∧
  (Position.distance_to a b = 0%Qc ↔ Position.x a = Position.x b).
Proof.
  unfold Position.distance_to. repeat split.
  - apply Qcabs_Qcminus.
  - apply Qcabs_nonneg.
  - intros H%Qcabs_null. qc_lra.
  - intros ->. replace (Position.x b - Position.x b)%Qc with 0%Qc by ring.
    by apply Qcabs_pos.
Qed.

(** X2: for a train whose draw is not negative, the contribution of a
    station lies between 0 and the draw, and a station that is farther
    from the train contributes no more than a nearer one. *)
Theorem X2_contribution_bounded_and_decreasing (s s' : Substation.t) (v : Train.t) :
  (0 ≤ Train.get_current_power_draw v)%Qc →
  (0 ≤ Substation.calculate_power_contribution s v
     ≤ Train.get_current_power_draw v)%Qc ∧
  ((Position.distance_to (Substation.position s) (Train.position v)
    ≤ Position.distance_to (Substation.position s') (Train.position v))%Qc →
   (Substation.calculate_power_contribution s' v
    ≤ Substation.calculate_power_contribution s v)%Qc).
Proof.
  intros Hdraw.
  destruct (contribution_cases s v) as [[Hd Hc]|[[Hd0 Hd] Hc]];
  destruct (contribution_cases s' v) as [[Hd' Hc']|[[Hd0' Hd'] Hc']];
    repeat split; intros; qc_to_q;
    change (this (Qc_of_Z 10)) with 10%Q in *; nra.
Qed.

(** X2 at the train of the out-of-range scenario and two stations. *)
Lemma X2_contribution_bounded_and_decreasing_witness :
  (0 ≤ Substation.calculate_power_contribution (station "A" 0 5) near_train
     ≤ Train.get_current_power_draw near_train)%Qc ∧
  ((Position.distance_to (Substation.position (station "A" 0 5))
      (Train.position near_train)
    ≤ Position.distance_to (Substation.position (station "B" 4 5))
        (Train.position near_train))%Qc →
   (Substation.calculate_power_contribution (station "B" 4 5) near_train
    ≤ Substation.calculate_power_contribution (station "A" 0 5) near_train)%Qc).
Proof.
  apply (X2_contribution_bounded_and_decreasing (station "A" 0 5) (station "B" 4 5)
           near_train).
  by vm_compute.
Defined.

(** X3: a train moved to the position of a station keeps its power draw,
    and the station's contribution to it is then the whole draw. *)
Theorem X3_move_to_station_full_contribution (s : Substation.t) (v : Train.t) :
  let v' := Train.move_to v (Substation.position s) in
  Train.get_current_power_draw v' = Train.get_current_power_draw v ∧
  Train.train_id v' = Train.train_id v ∧
  Substation.calculate_power_contribution s v' = Train.get_current_power_draw v.
Proof.
  repeat split.
  unfold Substation.calculate_power_contribution, Position.distance_to.
  change (Train.position (Train.move_to v (Substation.position s)))
    with (Substation.position s).
  change (Train.get_current_power_draw (Train.move_to v (Substation.position s)))
    with (Train.get_current_power_draw v).
  replace (Position.x (Substation.position s) - Position.x (Substation.position s))%Qc
    with 0%Qc by ring.
  rewrite (Qcabs_pos 0%Qc) by done.
  rewrite bool_decide_eq_false_2 by done.
  unfold Substation.max_range. field. done.
Qed.

(** *** The registries *)

Lemma elem_of_dict_set {V} (k k0 : string) (v v0 : V) (d : Dict.t V) :
  (k0, v0) ∈ Dict.set k v d → (k0 = k ∧ v0 = v) ∨ (k0, v0) ∈ d.
Proof.
  induction d as [|[k' v'] d IH]; simpl.
  - intros [= -> ->]%list_elem_of_singleton. by left.
  - destruct (decide (k' = k)) as [->|Hne].
    + intros [[= -> ->]|Hin]%elem_of_cons; [by left|]. right. by apply elem_of_cons; right.
    + intros [[= -> ->]|Hin]%elem_of_cons; [right; by apply elem_of_cons; left|].
      destruct (IH Hin) as [?|?]; [by left|]. right. by apply elem_of_cons; right.
Qed.

Lemma dict_keys_set {V} (k : string) (v : V) (d : Dict.t V) :
  Dict.keys (Dict.set k v d)
  = if decide (k ∈ Dict.keys d) then Dict.keys d else Dict.keys d ++ [k].
Proof.
  case_decide.
  - by apply dict_keys_set_dup.
  - by apply dict_keys_set_new.
Qed.

Lemma dict_set_NoDup {V} (k : string) (v : V) (d : Dict.t V) :
  NoDup (Dict.keys d) → NoDup (Dict.keys (Dict.set k v d)).
Proof.
  intros Hd. rewrite dict_keys_set. case_decide as Hk; [done|].
  apply NoDup_app. split; [done|]. split; [|apply NoDup_singleton].
  by intros k' Hk' ->%list_elem_of_singleton.
Qed.

Lemma add_substation_track_length (self : t) (substation : Substation.t) :
  let x := Position.x (Substation.position substation) in
  (track_length self ≤ track_length (add_substation self substation))%Qc ∧
  (x ≤ track_length (add_substation self substation))%Qc ∧
  (track_length (add_substation self substation) = track_length self ∨
   track_length (add_substation self substation) = x).
Proof.
  intros x. unfold add_substation. cbn [track_length]. fold x.
  destruct (py_max_cases (track_length self) x) as [[-> H]|[-> H]].
  - repeat split; [apply Qcle_refl|done|by left].
  - repeat split; [by apply Qclt_le_weak|apply Qcle_refl|by right].
Qed.

(** X4: registering a station never lowers the track length and raises
    it at least to the coordinate of the station; the result is the old
    track length or that coordinate.  Registering a train leaves it as it
    is. *)
Theorem X4_track_length_grows (self : t) (substation : Substation.t)
    (train : Train.t) :
  let x := Position.x (Substation.position substation) in
  (track_length self ≤ track_length (add_substation self substation))%Qc ∧
  (x ≤ track_length (add_substation self substation))%Qc ∧
  (track_length (add_substation self substation) = track_length self ∨
   track_length (add_substation self substation) = x) ∧
  track_length (add_train self train) = track_length self.
Proof.
  intros x.
  destruct (add_substation_track_length self substation) as (? & ? & ?).
  by repeat split.
Qed.

(** X5: in every controller built from the empty one by registrations,
    the track length is not negative and no registered station lies
    beyond it. *)
Theorem X5_track_length_covers_stations (self : t) :
  registered self →
  (0 ≤ track_length self)%Qc ∧
  Forall (λ s, (Position.x (Substation.position s) ≤ track_length self)%Qc)
    (Dict.values (substations self)).
Proof.
  unfold Dict.values.
  induction 1 as [|self substation _ [IH0 IH]|self train _ IH]; [by split| |done].
  destruct (add_substation_track_length self substation) as (Hgrow & Hnew & _).
  split; [by apply Qcle_trans with (track_length self)|].
  apply Forall_fmap, Forall_forall. intros [k s] Hin.
  apply elem_of_dict_set in Hin as [[_ ->]|Hin]; [done|].
  rewrite Forall_fmap, Forall_forall in IH. specialize (IH _ Hin). simpl in *.
  by apply Qcle_trans with (track_length self).
Qed.

(** X5 at the network with stations at 0 and 8. *)
Lemma X5_track_length_covers_stations_witness :
  let self := two_station_network "SUB_1" "SUB_2" "TRAIN_1" (Q2Qc 2) (Q2Qc (-3 # 2)) in
  (0 ≤ track_length self)%Qc ∧
  Forall (λ s, (Position.x (Substation.position s) ≤ track_length self)%Qc)
    (Dict.values (substations self)).
Proof.
  apply (X5_track_length_covers_stations
    (two_station_network "SUB_1" "SUB_2" "TRAIN_1" (Q2Qc 2) (Q2Qc (-3 # 2)))).
  repeat constructor.
Defined.

(** X6: in every controller built from the empty one by registrations,
    no id occurs twice in a registry, and every entity is registered
    under its own id. *)
Theorem X6_registry_keys_are_ids (self : t) :
  registered self →
  NoDup (Dict.keys (substations self)) ∧
  NoDup (Dict.keys (trains self)) ∧
  Forall (λ ks, ks.1 = Substation.sub_id ks.2) (substations self) ∧
  Forall (λ kt, kt.1 = Train.train_id kt.2) (trains self).
Proof.
  induction 1 as [|self substation _ (IH1 & IH2 & IH3 & IH4)
                  |self train _ (IH1 & IH2 & IH3 & IH4)].
  - repeat split; constructor.
  - repeat split; [by apply dict_set_NoDup|done| |done].
    apply Forall_forall. intros [k s] Hin.
    apply elem_of_dict_set in Hin as [[-> ->]|Hin]; [done|].
    rewrite Forall_forall in IH3. by apply IH3.
  - repeat split; [done|by apply dict_set_NoDup|done|].
    apply Forall_forall. intros [k s] Hin.
    apply elem_of_dict_set in Hin as [[-> ->]|Hin]; [done|].
    rewrite Forall_forall in IH4. by apply IH4.
Qed.

(** X6 at the network with stations at 0 and 8. *)
Lemma X6_registry_keys_are_ids_witness :
  let self := two_station_network "SUB_1" "SUB_2" "TRAIN_1" (Q2Qc 2) (Q2Qc (-3 # 2)) in
  NoDup (Dict.keys (substations self)) ∧
  NoDup (Dict.keys (trains self)) ∧
  Forall (λ ks, ks.1 = Substation.sub_id ks.2) (substations self) ∧
  Forall (λ kt, kt.1 = Train.train_id kt.2) (trains self).
Proof.
  apply (X6_registry_keys_are_ids
    (two_station_network "SUB_1" "SUB_2" "TRAIN_1" (Q2Qc 2) (Q2Qc (-3 # 2)))).
  repeat constructor.
Defined.

(** X7: after [add_substation] the station is found under its id, every
    other id is looked up as before, the trains are untouched, and the
    id order is the old one, with the id at the end when it is new. *)
Theorem X7_add_substation_lookup (self : t) (substation : Substation.t) :
  let self' := add_substation self substation in
  let id := Substation.sub_id substation in
  Dict.get id (substations self') = Some substation ∧
  (∀ k, k ≠ id → Dict.get k (substations self') = Dict.get k (substations self)) ∧
  Dict.keys (substations self')
  = (if decide (id ∈ Dict.keys (substations self))
     then Dict.keys (substations self)
     else Dict.keys (substations self) ++ [id]) ∧
  trains self' = trains self.
Proof.
  unfold add_substation. cbn [substations trains]. repeat split.
  - apply dict_get_set.
  - intros k Hk. by apply dict_get_set_ne.
  - apply dict_keys_set.
Qed.

(** X8: after [add_train] the train is found under its id, every other
    id is looked up as before, the stations and the track length are
    untouched, and the id order is the old one, with the id at the end
    when it is new. *)
Theorem X8_add_train_lookup (self : t) (train : Train.t) :
  let self' := add_train self train in
  let id := Train.train_id train in
  Dict.get id (trains self') = Some train ∧
  (∀ k, k ≠ id → Dict.get k (trains self') = Dict.get k (trains self)) ∧
  Dict.keys (trains self')
  = (if decide (id ∈ Dict.keys (trains self))
     then Dict.keys (trains self)
     else Dict.keys (trains self) ++ [id]) ∧
  substations self' = substations self ∧
  track_length self' = track_length self.
Proof.
  unfold add_train. cbn [substations trains track_length]. repeat split.
  - apply dict_get_set.
  - intros k Hk. by apply dict_get_set_ne.
  - apply dict_keys_set.
Qed.

(** *** The order of the nearest stations *)

Lemma nearer_of_le (a b : nat * Qc) : (a.2 ≤ b.2)%Qc → a.1 < b.1 → nearer a b.
Proof.
  intros Hle Hlt. unfold nearer.
  destruct (Qclt_le_dec a.2 b.2) as [?|Hge]; [by left|right].
  split; [by apply Qcle_antisym|done].
Qed.

Lemma nearer_le (a b : nat * Qc) : nearer a b → (a.2 ≤ b.2)%Qc.
Proof. intros [?|[-> _]]; [by apply Qclt_le_weak|apply Qcle_refl]. Qed.

Lemma py_insert_nearer (a : nat * Qc) (l : list (nat * Qc)) :
  Forall (λ b, a.1 < b.1) l →
  StronglySorted nearer l → StronglySorted nearer (py_insert snd a l).
Proof.
  intros Hrefs Hl. induction Hl as [|b l Hl IH Hb]; simpl.
  - repeat constructor.
  - apply Forall_cons in Hrefs as [Hab Hrefs].
    case_bool_decide as Hlt.
    + constructor; [by apply IH|].
      rewrite py_insert_perm. constructor; [by left|done].
    + apply Qcle_ngt in Hlt.
      constructor; [by constructor|].
      constructor; [by apply nearer_of_le|].
      rewrite Forall_forall in Hb, Hrefs. apply Forall_forall. intros c Hc.
      apply nearer_of_le; [|by apply Hrefs].
      apply Qcle_trans with b.2; [done|]. by apply nearer_le, Hb.
Qed.

Lemma nearby_from_nearer i subs position max_distance :
  StronglySorted nearer (py_sorted snd (nearby_from i subs position max_distance)).
Proof.
  revert i. induction subs as [|[k s] subs IH]; intros i; simpl; [constructor|].
  case_bool_decide; [|done]. simpl.
  apply py_insert_nearer; [|done].
  rewrite py_sorted_perm.
  destruct (nearby_from_refs (S i) subs position max_distance) as [Hge _].
  rewrite Forall_fmap in Hge. eapply Forall_impl; [exact Hge|].
  intros [r d]. simpl. lia.
Qed.

(** X9: in the result of [get_nearest_substations], a station comes
    before another one when it is strictly nearer, or when it is as near
    and was registered earlier: ties keep the registry order. *)
Theorem X9_nearest_ties_keep_registry_order (self : t) (position : Position.t)
    (max_distance : Qc) :
  StronglySorted nearer (get_nearest_substations self position max_distance).
Proof. apply nearby_from_nearer. Qed.

(** *** The loop body, station by station *)

Lemma contribution_at_nonneg train subs r :
  (0 ≤ Train.get_current_power_draw train)%Qc →
  (0 ≤ contribution_at train subs r)%Qc.
Proof.
  intros Hdraw. unfold contribution_at.
  destruct (subs !! r) as [[k sub]|]; [|done].
  by apply contribution_bounds.
Qed.

Lemma contribution_at_insert train (subs : Dict.t Substation.t) r k sub v r0 :
  subs !! r = Some (k, sub) →
  contribution_at train (<[r := (k, Substation.add_current_load v sub)]> subs) r0
  = contribution_at train subs r0.
Proof.
  intros Hr. unfold contribution_at. destruct (decide (r = r0)) as [<-|Hne].
  - rewrite list_lookup_insert_eq by by eapply lookup_lt_Some. by rewrite Hr.
  - by rewrite list_lookup_insert_ne.
Qed.

Lemma load_at_insert (subs : Dict.t Substation.t) r k sub v r0 :
  subs !! r = Some (k, sub) →
  load_at (<[r := (k, Substation.add_current_load v sub)]> subs) r0
  = if decide (r = r0) then (load_at subs r0 + v)%Qc else load_at subs r0.
Proof.
  intros Hr. unfold load_at. case_decide as Hne; [subst r0|].
  - rewrite list_lookup_insert_eq by by eapply lookup_lt_Some. by rewrite Hr.
  - by rewrite list_lookup_insert_ne.
Qed.

Lemma distribute_untouched train nearby remaining subs r0 :
  r0 ∉ nearby.*1 →
  load_at (distribute train nearby remaining subs).1 r0 = load_at subs r0.
Proof.
  revert remaining subs.
  induction nearby as [|[r d] nearby IH]; intros remaining subs Hr0; simpl; [done|].
  apply not_elem_of_cons in Hr0 as [Hne Hr0]. simpl in Hne.
  case_bool_decide; [done|].
  destruct (subs !! r) as [[k sub]|] eqn:Hr; [|done].
  rewrite IH by done. rewrite (load_at_insert _ _ _ _ _ _ Hr).
  by rewrite decide_False.
Qed.

Lemma distribute_trace_nonpos train nearby remaining subs :
  (remaining ≤ 0)%Qc → distribute_trace train nearby remaining subs = [].
Proof.
  intros Hrem. destruct nearby as [|[r d] nearby]; cbn [distribute_trace]; [done|].
  by rewrite bool_decide_eq_true_2.
Qed.

Lemma distribute_trace_within_contribution train nearby remaining subs :
  (0 ≤ Train.get_current_power_draw train)%Qc →
  (0 ≤ remaining)%Qc →
  Forall (λ c, (0 ≤ amount c ≤ contribution_at train subs (station_ref c))%Qc)
    (distribute_trace train nearby remaining subs).
Proof.
  intros Hdraw. revert remaining subs.
  induction nearby as [|[r d] nearby IH]; intros remaining subs Hrem;
    cbn [distribute_trace]; [constructor|].
  case_bool_decide; [constructor|].
  destruct (subs !! r) as [[k sub]|] eqn:Hsub; [|constructor].
  set (c := Substation.calculate_power_contribution sub train).
  assert (0 ≤ c)%Qc as Hc by by apply contribution_bounds.
  assert (0 ≤ py_min c remaining ≤ c)%Qc as [Hlo Hhi].
  { destruct (py_min_cases c remaining) as [[-> ?]|[-> ?]]; split; qc_lra. }
  constructor.
  - cbn [amount station_ref]. unfold contribution_at. rewrite Hsub. by split.
  - eapply Forall_impl; [apply IH, Qc_sub_min_nonneg|].
    intros e He. cbn beta in He.
    by rewrite (contribution_at_insert _ _ _ _ _ _ _ Hsub) in He.
Qed.

(** X10: every amount that the allocation loop hands out to a station on
    behalf of a train lies between 0 and the contribution that the
    station computes for the train. *)
Theorem X10_amount_within_contribution (train : Train.t)
    (subs : Dict.t Substation.t) :
  Forall (λ c, (0 ≤ amount c ≤ contribution_at train subs (station_ref c))%Qc)
    (allocate_train_trace train subs).
Proof.
  unfold allocate_train_trace.
  destruct (Qclt_le_dec (Train.get_current_power_draw train) 0) as [Hneg|Hdraw].
  - rewrite distribute_trace_nonpos by by apply Qclt_le_weak. constructor.
  - by apply distribute_trace_within_contribution.
Qed.

(** X11: a station that is farther than 10 from a train receives no
    load from it, whatever the draw. *)
Theorem X11_far_station_receives_nothing (train : Train.t)
    (subs : Dict.t Substation.t) (r : nat) (k : string) (sub : Substation.t) :
  subs !! r = Some (k, sub) →
  (Qc_of_Z 10 < Position.distance_to (Substation.position sub)
                  (Train.position train))%Qc →
  attributed_at train subs r = 0%Qc.
Proof.
  intros Hsub Hfar. unfold attributed_at, allocate_train.
  assert (r ∉ (nearest_of subs (Train.position train) default_max_distance).*1)
    as Hr.
  { intros ([r' d] & Hr' & Hin)%list_elem_of_fmap. cbn [fst] in Hr'. subst r'.
    apply elem_of_nearest_of in Hin as (k' & sub' & Hsub' & -> & Hle).
    rewrite Hsub in Hsub'. injection Hsub' as <- <-.
    by apply Qcle_not_lt in Hle. }
  destruct (nearest_of _ _ _) as [|rd nearby]; cbn [fst].
  - ring.
  - rewrite distribute_untouched by done. ring.
Qed.

(** X11 at the train at 15 and the station at 0. *)
Lemma X11_far_station_receives_nothing_witness :
  attributed_at far_train (substations out_of_range_network) 0 = 0%Qc.
Proof.
  apply (X11_far_station_receives_nothing far_train
           (substations out_of_range_network) 0 "SUB_1" (station "SUB_1" 0 5)).
  - reflexivity.
  - by vm_compute.
Defined.



(** *** The loop body, in order *)



(** *** The whole pass *)

Lemma distribute_load_mono train nearby remaining subs r0 :
  (0 ≤ Train.get_current_power_draw train)%Qc →
  (0 ≤ remaining)%Qc →
  (load_at subs r0 ≤ load_at (distribute train nearby remaining subs).1 r0)%Qc.
Proof.
  intros Hdraw. revert remaining subs.
  induction nearby as [|[r d] nearby IH]; intros remaining subs Hrem;
    cbn [distribute fst]; [apply Qcle_refl|].
  case_bool_decide; [apply Qcle_refl|].
  destruct (subs !! r) as [[k sub]|] eqn:Hsub; [|apply Qcle_refl].
  set (c := Substation.calculate_power_contribution sub train).
  assert (0 ≤ c)%Qc as Hc by by apply contribution_bounds.
  assert (0 ≤ py_min c remaining)%Qc as Hlo.
  { destruct (py_min_cases c remaining) as [[-> ?]|[-> ?]]; qc_lra. }
  eapply Qcle_trans; [|apply IH, Qc_sub_min_nonneg].
  rewrite (load_at_insert _ _ _ _ _ _ Hsub). case_decide; qc_lra.
Qed.

Lemma allocate_train_load_mono train subs r :
  (load_at subs r ≤ load_at (allocate_train train subs).1 r)%Qc.
Proof.
  destruct (Qclt_le_dec (Train.get_current_power_draw train) 0) as [Hneg|Hdraw].
  - rewrite allocate_train_nonpos by by apply Qclt_le_weak. apply Qcle_refl.
  - unfold allocate_train.
    destruct (nearest_of _ _ _) as [|rd nearby]; cbn [fst]; [apply Qcle_refl|].
    by apply distribute_load_mono.
Qed.

Lemma allocate_trains_load_mono trains subs r :
  (load_at subs r ≤ load_at (allocate_trains trains subs).1 r)%Qc.
Proof.
  revert subs. induction trains as [|train trains IH]; intros subs; simpl.
  - apply Qcle_refl.
  - pose proof (allocate_train_load_mono train subs r) as H1.
    destruct (allocate_train train subs) as [subs1 out1].
    specialize (IH subs1).
    destruct (allocate_trains trains subs1) as [subs2 out2].
    by apply Qcle_trans with (load_at subs1 r).
Qed.

Lemma load_at_reset_loads subs r : load_at (reset_loads subs) r = 0%Qc.
Proof.
  unfold load_at, reset_loads. rewrite list_lookup_fmap.
  by destruct (subs !! r) as [[k s]|].
Qed.

(** X14: after an allocation pass no station has a negative load,
    whatever the draws of the trains are. *)
Theorem X14_loads_nonnegative (self : t) :
  Forall (λ s, (0 ≤ Substation.current_load s)%Qc)
    (Dict.values (substations (update_power_distribution self).1)).
Proof.
  rewrite update_power_distribution_unfold. cbn [fst substations].
  unfold Dict.values. apply Forall_lookup. intros r s Hs.
  rewrite list_lookup_fmap in Hs.
  destruct (_ !! r) as [[k s']|] eqn:Hr; simplify_eq/=.
  pose proof (allocate_trains_load_mono (trains self).*2
                (reset_loads (substations self)) r) as Hmono.
  rewrite load_at_reset_loads in Hmono. unfold load_at in Hmono.
  by rewrite Hr in Hmono.
Qed.

(** X15: an allocation pass starts from scratch: run on its own result,
    with nothing moved in between, it gives the same loads and prints the
    same warnings again. *)
Theorem X15_update_power_distribution_idempotent (self : t) :
  update_power_distribution (update_power_distribution self).1
  = update_power_distribution self.
Proof.
  rewrite !update_power_distribution_unfold. cbn [fst substations trains track_length].
  by rewrite allocate_trains_frame, reset_loads_idemp.
Qed.

Lemma out_of_range_frame subs subs' train :
  reset_loads subs' = reset_loads subs →
  out_of_range subs' train = out_of_range subs train.
Proof. intros H. unfold out_of_range. by rewrite (nearest_of_frame subs subs'). Qed.

Lemma allocate_train_output train subs :
  (allocate_train train subs).2
  = if out_of_range subs train then [out_of_range_warning train] else [].
Proof.
  unfold allocate_train, out_of_range.
  by destruct (nearest_of _ _ _).
Qed.

Lemma allocate_trains_output trains subs :
  (allocate_trains trains subs).2
  = out_of_range_warning <$> filter (λ train, out_of_range subs train) trains.
Proof.
  revert subs. induction trains as [|train trains IH]; intros subs; simpl; [done|].
  pose proof (allocate_train_output train subs) as Hout.
  pose proof (allocate_train_frame train subs) as Hframe.
  destruct (allocate_train train subs) as [subs1 out1].
  specialize (IH subs1).
  destruct (allocate_trains trains subs1) as [subs2 out2]. simpl in *.
  subst out1 out2.
  rewrite filter_cons.
  assert (filter (λ train0, out_of_range subs1 train0) trains
          = filter (λ train0, out_of_range subs train0) trains) as ->.
  { apply list_filter_iff. intros t'. by rewrite (out_of_range_frame subs subs1). }
  by destruct (out_of_range subs train).
Qed.

(** X16: an allocation pass prints one warning for each train that has
    no station within 10 of its position, in the order of the train
    registry, and nothing else. *)
Theorem X16_warnings_are_the_out_of_range_trains (self : t) :
  (update_power_distribution self).2
  = out_of_range_warning <$>
      filter (λ train, out_of_range (substations self) train)
        (Dict.values (trains self)).
Proof.
  rewrite update_power_distribution_unfold. cbn [snd].
  rewrite allocate_trains_output. f_equal.
  apply list_filter_iff. intros t'.
  by rewrite (out_of_range_frame (substations self)) by apply reset_loads_idemp.
Qed.

(** *** The simulation loop *)

Lemma nearby_from_clear_flags i subs position max_distance :
  nearby_from i (clear_flags subs) position max_distance
  = nearby_from i subs position max_distance.
Proof.
  revert i. induction subs as [|[k s] subs IH]; intros i; simpl; [done|].
  by rewrite !IH.
Qed.

Lemma distribute_clear_flags train nearby remaining subs :
  distribute train nearby remaining (clear_flags subs)
  = (clear_flags (distribute train nearby remaining subs).1,
     (distribute train nearby remaining subs).2).
Proof.
  revert remaining subs.
  induction nearby as [|[r d] nearby IH]; intros remaining subs; cbn [distribute];
    [done|].
  case_bool_decide; [done|].
  unfold clear_flags at 1. rewrite list_lookup_fmap.
  destruct (subs !! r) as [[k sub]|] eqn:Hr; cbn [fmap option_fmap option_map]; [|done].
  change (prod_map id clear_flag (k, sub)) with (k, clear_flag sub).
  cbv iota beta.
  change (Substation.calculate_power_contribution (clear_flag sub) train)
    with (Substation.calculate_power_contribution sub train).
  set (actual := py_min _ remaining).
  rewrite <-(IH (remaining - actual)%Qc). f_equal.
  unfold clear_flags. by rewrite list_fmap_insert.
Qed.

Lemma allocate_train_clear_flags train subs :
  allocate_train train (clear_flags subs)
  = (clear_flags (allocate_train train subs).1, (allocate_train train subs).2).
Proof.
  unfold allocate_train, nearest_of. rewrite nearby_from_clear_flags.
  destruct (py_sorted _ _) as [|rd nearby]; [done|].
  by rewrite distribute_clear_flags.
Qed.

Lemma allocate_trains_clear_flags trains subs :
  allocate_trains trains (clear_flags subs)
  = (clear_flags (allocate_trains trains subs).1, (allocate_trains trains subs).2).
Proof.
  revert subs. induction trains as [|train trains IH]; intros subs;
    cbn [allocate_trains]; [done|].
  rewrite allocate_train_clear_flags.
  destruct (allocate_train train subs) as [subs1 out1]. cbn [fst snd].
  rewrite IH. by destruct (allocate_trains trains subs1).
Qed.

Lemma clear_flags_reset_loads subs :
  clear_flags (reset_loads subs) = reset_loads (clear_flags subs).
Proof.
  unfold clear_flags, reset_loads. rewrite <-!list_fmap_compose.
  apply list_fmap_ext. by intros _ [k s] _.
Qed.

Lemma clear_flags_update_all_congestion subs :
  clear_flags (update_all_congestion subs) = clear_flags subs.
Proof.
  unfold clear_flags, update_all_congestion. rewrite <-!list_fmap_compose.
  apply list_fmap_ext. by intros _ [k s] _.
Qed.

Lemma update_all_congestion_clear_flags subs :
  update_all_congestion (clear_flags subs) = update_all_congestion subs.
Proof.
  unfold clear_flags, update_all_congestion. rewrite <-!list_fmap_compose.
  apply list_fmap_ext. by intros _ [k s] _.
Qed.

Lemma timestep_unfold self :
  timestep self
  = (mk (update_all_congestion
           (allocate_trains (Dict.values (trains self))
              (reset_loads (substations self))).1)
        (trains self) (track_length self),
     (allocate_trains (Dict.values (trains self))
        (reset_loads (substations self))).2).
Proof. unfold timestep. by rewrite update_power_distribution_unfold. Qed.

Lemma timestep_idempotent self : timestep (timestep self).1 = timestep self.
Proof.
  rewrite (timestep_unfold (timestep self).1), (timestep_unfold self).
  cbn [fst substations trains track_length].
  set (ts := Dict.values (trains self)).
  set (A := (allocate_trains ts (reset_loads (substations self))).1).
  assert (clear_flags (reset_loads (update_all_congestion A))
          = clear_flags (reset_loads (substations self))) as Hstart.
  { rewrite !clear_flags_reset_loads, clear_flags_update_all_congestion.
    rewrite <-!clear_flags_reset_loads. f_equal.
    unfold A. by rewrite allocate_trains_frame, reset_loads_idemp. }
  pose proof (allocate_trains_clear_flags ts (reset_loads (update_all_congestion A)))
    as H2.
  pose proof (allocate_trains_clear_flags ts (reset_loads (substations self))) as H1.
  rewrite Hstart, H1 in H2. injection H2 as Hsubs Hout. fold A in Hsubs.
  rewrite <-Hout. f_equal. f_equal.
  by rewrite <-update_all_congestion_clear_flags, <-Hsubs,
    update_all_congestion_clear_flags.
Qed.

(** X17: a simulation step run again on its own result, with nothing
    moved in between, returns the same controller and prints the same
    warnings; hence every round of the simulation loop of [main] ends in
    the state of the first round. *)
Theorem X17_timestep_idempotent (self : t) (n : nat) :
  timestep (timestep self).1 = timestep self ∧
  run_timesteps (S n) self = (timestep self).1.
Proof.
  split; [apply timestep_idempotent|].
  induction n as [|n IH]; [done|].
  change (run_timesteps (S (S n)) self)
    with (timestep (run_timesteps (S n) self)).1.
  by rewrite IH, timestep_idempotent.
Qed.

(** *** The set-up of [main] *)

Lemma substation_name_inj : Inj (=) (=) substation_name.
Proof.
  intros i j H. unfold substation_name in H. simpl in H.
  injection H as H. apply (inj (String.app "")) in H.
  apply (inj (pretty (A:=nat))) in H. lia.
Qed.

Lemma train_name_inj : Inj (=) (=) train_name.
Proof.
  intros i j H. unfold train_name in H. simpl in H.
  injection H as H. apply (inj (String.app "")) in H.
  apply (inj (pretty (A:=nat))) in H. lia.
Qed.

Lemma dict_set_fresh {V} (k : string) (v : V) (d : Dict.t V) :
  k ∉ Dict.keys d → Dict.set k v d = d ++ [(k, v)].
Proof.
  unfold Dict.keys. induction d as [|[k' v'] d IH]; simpl; [done|].
  intros [Hne Hin]%not_elem_of_cons.
  rewrite decide_False by done. by rewrite IH.
Qed.

Lemma register_substations_spec i inputs controller :
  (∀ j, i ≤ j → substation_name j ∉ Dict.keys (substations controller)) →
  substations (register_substations i inputs controller)
  = substations controller ++
    imap (λ j pt, (substation_name (i + j),
                   Substation.init (substation_name (i + j))
                     (SubstationConfig.make pt.2) (Position.mk pt.1))) inputs ∧
  trains (register_substations i inputs controller) = trains controller.
Proof.
  revert i controller.
  induction inputs as [|[position threshold] inputs IH]; intros i controller Hfresh.
  { simpl. by rewrite (right_id_L [] (++)). }
  cbn [register_substations].
  set (sub := Substation.init (substation_name i) _ _).
  destruct (IH (S i) (add_substation controller sub)) as [-> ->].
  - intros j Hj. unfold add_substation. cbn [substations].
    rewrite dict_set_fresh by (apply Hfresh; lia).
    unfold Dict.keys. rewrite fmap_app. apply not_elem_of_app. split.
    + apply Hfresh. lia.
    + intros Hin%list_elem_of_singleton. apply substation_name_inj in Hin. lia.
  - split; [|done]. unfold add_substation. cbn [substations Substation.sub_id].
    rewrite dict_set_fresh by (apply Hfresh; lia).
    rewrite <-(assoc_L (++)). f_equal. cbn [imap app]. rewrite Nat.add_0_r.
    f_equal. apply imap_ext. intros j pt _. simpl. by rewrite Nat.add_succ_r.
Qed.

Lemma register_trains_spec i power_config positions controller :
  (∀ j, i ≤ j → train_name j ∉ Dict.keys (trains controller)) →
  trains (register_trains i power_config positions controller)
  = trains controller ++
    imap (λ j position, (train_name (i + j),
                         Train.init (train_name (i + j)) power_config
                           (Position.mk position))) positions ∧
  substations (register_trains i power_config positions controller)
  = substations controller.
Proof.
  revert i controller.
  induction positions as [|position positions IH]; intros i controller Hfresh.
  { simpl. by rewrite (right_id_L [] (++)). }
  cbn [register_trains].
  set (train := Train.init (train_name i) _ _).
  destruct (IH (S i) (add_train controller train)) as [-> ->].
  - intros j Hj. unfold add_train. cbn [trains].
    rewrite dict_set_fresh by (apply Hfresh; lia).
    unfold Dict.keys. rewrite fmap_app. apply not_elem_of_app. split.
    + apply Hfresh. lia.
    + intros Hin%list_elem_of_singleton. apply train_name_inj in Hin. lia.
  - split; [|done]. unfold add_train. cbn [trains Train.train_id].
    rewrite dict_set_fresh by (apply Hfresh; lia).
    rewrite <-(assoc_L (++)). f_equal. cbn [imap app]. rewrite Nat.add_0_r.
    f_equal. apply imap_ext. intros j pt _. simpl. by rewrite Nat.add_succ_r.
Qed.

(** X18: the set-up of [main] registers every station and every train
    that it reads, in the order read: the generated ids never collide, so
    no entry is overwritten.  Station [i] is registered as "SUB_i+1" with
    its position and threshold and no load, train [i] as "TRAIN_i+1",
    cruising, with the common power profile. *)
Theorem X18_main_setup_registers_all (stations : list (Qc * Qc))
    (cruising_power : Qc) (train_positions : list Qc) :
  let controller := main_setup stations cruising_power train_positions in
  substations controller
  = imap (λ i pt, (substation_name i,
                   Substation.init (substation_name i)
                     (SubstationConfig.make pt.2) (Position.mk pt.1))) stations ∧
  trains controller
  = imap (λ i position, (train_name i,
                         Train.init (train_name i)
                           (main_power_config cruising_power)
                           (Position.mk position))) train_positions.
Proof.
  unfold main_setup.
  destruct (register_substations_spec 0 stations init) as [Hsubs Htrains];
    [intros j _ ?%elem_of_nil; done|].
  destruct (register_trains_spec 0 (main_power_config cruising_power)
    train_positions (register_substations 0 stations init)) as [-> ->].
  { rewrite Htrains. intros j _ ?%elem_of_nil. done. }
  by rewrite Hsubs, Htrains.
Qed.

(** X19: with the power profile that [main] derives from a cruising power
    that is not negative, a braking train draws at most 0, a coasting
    train draws at least 0 and at most what a cruising train draws, which
    is the cruising power read; so a braking train adds no load to any
    station. *)
Theorem X19_main_profile_order (cruising_power : Qc) (id : string)
    (position : Position.t) (section : option string)
    (subs : Dict.t Substation.t) :
  (0 ≤ cruising_power)%Qc →
  let train phase :=
    Train.mk id (main_power_config cruising_power) position phase section in
  (Train.get_current_power_draw (train BRAKING) ≤ 0)%Qc ∧
  (0 ≤ Train.get_current_power_draw (train COASTING)
     ≤ Train.get_current_power_draw (train CRUISING))%Qc ∧
  Train.get_current_power_draw (train CRUISING) = cruising_power ∧
  (allocate_train (train BRAKING) subs).1 = subs.
Proof.
  intros Hc train.
  assert (Train.get_current_power_draw (train BRAKING) ≤ 0)%Qc as Hbraking.
  { change (Train.get_current_power_draw (train BRAKING))
      with (- cruising_power * Q2Qc (3 # 20))%Qc.
    qc_to_q. change (this (Q2Qc (3 # 20))) with (3 # 20)%Q. nra. }
  split; [done|]. split; [|split; [done|by apply allocate_train_nonpos]].
  change (Train.get_current_power_draw (train COASTING))
    with (cruising_power * Q2Qc (1 # 5))%Qc.
  change (Train.get_current_power_draw (train CRUISING)) with cruising_power.
  split; qc_to_q; change (this (Q2Qc (1 # 5))) with (1 # 5)%Q; nra.
Qed.

(** X19 for a cruising power of 10 and the station at 0. *)
Lemma X19_main_profile_order_witness :
  let train phase :=
    Train.mk "TRAIN_1" (main_power_config (Qc_of_Z 10)) (Position.mk 0%Qc)
      phase None in
  let subs := substations overloaded_network in
  (Train.get_current_power_draw (train BRAKING) ≤ 0)%Qc ∧
  (0 ≤ Train.get_current_power_draw (train COASTING)
     ≤ Train.get_current_power_draw (train CRUISING))%Qc ∧
  Train.get_current_power_draw (train CRUISING) = Qc_of_Z 10 ∧
  (allocate_train (train BRAKING) subs).1 = subs.
Proof.
  apply (X19_main_profile_order (Qc_of_Z 10) "TRAIN_1" (Position.mk 0%Qc) None
           (substations overloaded_network)).
  by vm_compute.
Defined.

(** *** The model and the numeric core *)

Lemma numeric_distance (a b : Position.t) :
  Position.distance_to a b
  = Numeric.distance_to Numeric.exact (Position.x a) (Position.x b).
Proof. reflexivity. Qed.

Lemma numeric_contribution (s : Substation.t) (v : Train.t) :
  Substation.calculate_power_contribution s v
  = Numeric.calculate_power_contribution Numeric.exact
      (Position.x (Substation.position s)) (Position.x (Train.position v))
      (Train.get_current_power_draw v).
Proof. reflexivity. Qed.

Lemma station_xs_insert (subs : Dict.t Substation.t) r k sub v nearby :
  subs !! r = Some (k, sub) →
  station_xs (<[r := (k, Substation.add_current_load v sub)]> subs) nearby
  = station_xs subs nearby.
Proof.
  intros Hr. unfold station_xs.
  induction nearby as [|[r' d] nearby IH]; [done|].
  cbn [omap list_omap fst]. rewrite IH. f_equal.
  destruct (decide (r = r')) as [<-|Hne].
  - rewrite list_lookup_insert_eq by by eapply lookup_lt_Some. by rewrite Hr.
  - by rewrite list_lookup_insert_ne.
Qed.

Lemma numeric_trace train nearby remaining subs :
  Forall (λ rd, is_Some (subs !! rd.1)) nearby →
  amount <$> distribute_trace train nearby remaining subs
  = Numeric.actual_contributions Numeric.exact (station_xs subs nearby)
      (Position.x (Train.position train)) (Train.get_current_power_draw train)
      remaining.
Proof.
  revert remaining subs.
  induction nearby as [|[r d] nearby IH]; intros remaining subs Hres; [done|].
  apply Forall_cons in Hres as [[[k sub] Hsub] Hres]. cbn [fst] in Hsub.
  unfold station_xs. cbn [omap list_omap fst distribute_trace]. rewrite Hsub.
  cbn [fmap option_fmap option_map mbind option_bind snd Numeric.actual_contributions].
  change (Numeric.le Numeric.exact remaining (Numeric.zero Numeric.exact))
    with (bool_decide (remaining ≤ 0)%Qc).
  case_bool_decide; [done|].
  rewrite fmap_cons. cbn [amount]. f_equal.
  rewrite IH.
  - fold (station_xs subs nearby). by rewrite (station_xs_insert _ _ _ _ _ _ Hsub).
  - eapply Forall_impl; [exact Hres|]. intros rd. cbn beta.
    rewrite !lookup_lt_is_Some. by rewrite length_insert.
Qed.
End FurtherProperties.
